(** * AuthContext: the session manager of the game catalogue

    A shallow embedding of [src/contexts/AuthContext.tsx]: the React state
    held by [AuthProvider], the mount effect that queries and follows the
    identity provider, the safety timer, and the three account operations.
    The collection page and the donation page, which come with it, follow
    the session manager.

    Modelling conventions.
    - The four [useState] cells are the record [AuthState]; every setter is a
      command on the environment.
    - An [async] function is cut at each [await] into synchronous segments.
      A segment receives the settled outcome of the promise it was waiting for
      and runs to the next [await] or to the end of the function.
    - State updates issued by one synchronous segment are committed together
      (React batches them), so the states that consumers can render are the
      states between segments.
    - [try] / [catch] / [finally] are combinators of a small command monad in
      which a thrown value keeps the writes made before it. *)

From Stdlib Require Import String List Bool Arith Lia DecimalString.
Import ListNotations.
Local Open Scope string_scope.

(** ** Data model *)

(** The provider's [User]; only the identifier is read by this file. *)
Record User := mkUser { user_id : string; user_email : string }.

(** The provider's [Session].  The code reads [currentSession?.user] and
    tests it for truthiness, so the field is kept optional here. *)
Record Session := mkSession { access_token : string; session_user : option User }.

(** A thrown or reported failure; the code reads [error.message]. *)
Record JsError := mkError { message : string }.

(** How a promise settles. *)
Inductive Settled (A : Type) : Type :=
| Resolved (v : A)
| Rejected (e : JsError).
Arguments Resolved {A} v.
Arguments Rejected {A} e.

(** [{ error }] as returned by the provider's sign-in, sign-up and sign-out. *)
Record AuthResponse := mkAuthResponse { error : option JsError }.

(** One row of [subscriptions], restricted to the selected column. *)
Record SubscriptionRow := mkRow { is_premium : option bool }.

(** [{ data }] as returned by the single-row query. *)
Record QueryResponse := mkQueryResponse { data : option SubscriptionRow }.

Inductive ToastVariant := VariantDefault | VariantDestructive.

Record Toast := mkToast {
  title : string;
  description : string;
  variant : ToastVariant
}.

(** The four state cells of [AuthProvider]. *)
Record AuthState := mkAuthState {
  user : option User;
  session : option Session;
  isLoading : bool;
  isPremium : bool
}.

(** [useState] initial values. *)
Definition initialState : AuthState :=
  {| user := None; session := None; isLoading := true; isPremium := false |}.

(** What a segment can touch: the state cells, the notification sink and the
    console. *)
Record Env := mkEnv {
  state : AuthState;
  toasts : list Toast;
  console : list string
}.

Definition initialEnv : Env :=
  {| state := initialState; toasts := []; console := [] |}.

(** ** Command monad: state with exceptions that keep the state *)

Module Cmd.

Definition M (A : Type) : Type := Env -> Env * (JsError + A).

Definition ret {A} (a : A) : M A := fun env => (env, inr a).

Definition bind {A B} (c : M A) (k : A -> M B) : M B :=
  fun env =>
    match c env with
    | (env', inr a) => k a env'
    | (env', inl e) => (env', inl e)
    end.

Definition throw {A} (e : JsError) : M A := fun env => (env, inl e).

(** [try { body } catch (e) { handler e }] *)
Definition try_catch {A} (body : M A) (handler : JsError -> M A) : M A :=
  fun env =>
    match body env with
    | (env', inr a) => (env', inr a)
    | (env', inl e) => handler e env'
    end.

(** [try { body } finally { fin }]: [fin] always runs; a throw of [fin]
    replaces the outcome of [body]. *)
Definition try_finally {A} (body : M A) (fin : M unit) : M A :=
  fun env =>
    match body env with
    | (env', r) =>
        match fin env' with
        | (env'', inr _) => (env'', r)
        | (env'', inl e) => (env'', inl e)
        end
    end.

(** [await p] once [p] has settled. *)
Definition await {A} (p : Settled A) : M A :=
  match p with
  | Resolved v => ret v
  | Rejected e => throw e
  end.

Definition when (b : bool) (c : M unit) : M unit :=
  if b then c else ret tt.

End Cmd.

Import Cmd.

Declare Scope cmd_scope.
Delimit Scope cmd_scope with cmd.
Notation "x <- c ;; k" := (bind c (fun x => k))
  (at level 61, c at next level, right associativity) : cmd_scope.
Notation "c ;; k" := (bind c (fun _ => k))
  (at level 61, right associativity) : cmd_scope.
Local Open Scope cmd_scope.

(** ** Primitive commands *)

Definition modifyState (f : AuthState -> AuthState) : M unit :=
  fun env =>
    ({| state := f (state env); toasts := toasts env; console := console env |},
     inr tt).

Definition setUser (u : option User) : M unit :=
  modifyState (fun s =>
    {| user := u; session := session s;
       isLoading := isLoading s; isPremium := isPremium s |}).

Definition setSession (x : option Session) : M unit :=
  modifyState (fun s =>
    {| user := user s; session := x;
       isLoading := isLoading s; isPremium := isPremium s |}).

Definition setIsLoading (b : bool) : M unit :=
  modifyState (fun s =>
    {| user := user s; session := session s;
       isLoading := b; isPremium := isPremium s |}).

Definition setIsPremium (b : bool) : M unit :=
  modifyState (fun s =>
    {| user := user s; session := session s;
       isLoading := isLoading s; isPremium := b |}).

(** [toast({...})]: appended to the notification sink, nothing returned. *)
Definition toast (t : Toast) : M unit :=
  fun env =>
    ({| state := state env; toasts := toasts env ++ [t]; console := console env |},
     inr tt).

(** [console.log] / [console.error]. *)
Definition consoleWrite (line : string) : M unit :=
  fun env =>
    ({| state := state env; toasts := toasts env; console := console env ++ [line] |},
     inr tt).

(** ** The mount effect (first [useEffect]) *)

(** [currentSession?.user], tested for truthiness. *)
Definition sessionUser (cur : option Session) : option User :=
  match cur with
  | Some s => session_user s
  | None => None
  end.

(** [data?.is_premium || false] *)
Definition premiumFlag (d : option SubscriptionRow) : bool :=
  match d with
  | Some row =>
      match is_premium row with
      | Some b => b
      | None => false
      end
  | None => false
  end.

(** [fetchPremiumStatus], from the point where the query has settled.
    [mounted] is the value of the effect's flag at that moment. *)
Definition fetchPremiumStatus_resume
    (mounted : bool) (r : Settled QueryResponse) : M unit :=
  try_catch
    (resp <- await r ;;
     when mounted (setIsPremium (premiumFlag (data resp))))
    (fun e => consoleWrite ("Error fetching subscription data: " ++ message e)).

(** The [finally] block of [checkSession]. *)
Definition checkSession_finally (mounted : bool) : M unit :=
  when mounted (setIsLoading false).

(** The [try] block of [checkSession] from the point where [getSession] has
    settled, up to [await fetchPremiumStatus(...)] or to its end.  The result
    is the user id whose entitlement fetch the function is now waiting for,
    if any. *)
Definition checkSession_try
    (mounted : bool) (r : Settled (option Session)) : M (option string) :=
  cur <- await r ;;
  if negb mounted then ret None
  else
    match sessionUser cur with
    | Some u =>
        setSession cur ;;
        setUser (Some u) ;;
        ret (Some (user_id u))
    | None => ret None
    end.

(** First segment of [checkSession]: [try] and [catch]; the [finally] block
    runs now unless the function is suspended inside [try]. *)
Definition checkSession_resume
    (mounted : bool) (r : Settled (option Session)) : M (option string) :=
  waiting <- try_catch (checkSession_try mounted r)
               (fun e => consoleWrite ("Error getting session: " ++ message e) ;;
                         ret None) ;;
  match waiting with
  | Some uid => ret (Some uid)
  | None => checkSession_finally mounted ;; ret None
  end.

(** Second segment of [checkSession]: the awaited [fetchPremiumStatus]
    settles, then [finally]. *)
Definition checkSession_afterFetch
    (mounted : bool) (q : Settled QueryResponse) : M unit :=
  try_finally
    (try_catch (fetchPremiumStatus_resume mounted q)
       (fun e => consoleWrite ("Error getting session: " ++ message e)))
    (checkSession_finally mounted).

(** [currentSession?.user?.id] as the console prints it. *)
Definition loggedId (cur : option Session) : string :=
  match sessionUser cur with
  | Some u => user_id u
  | None => "undefined"
  end.

(** First segment of the [onAuthStateChange] callback. *)
Definition authListener
    (mounted : bool) (event : string) (cur : option Session) : M (option string) :=
  consoleWrite ("Auth state changed: " ++ event ++ " " ++ loggedId cur) ;;
  if negb mounted then ret None
  else
    match sessionUser cur with
    | Some u =>
        setSession cur ;;
        setUser (Some u) ;;
        ret (Some (user_id u))
    | None =>
        setSession None ;;
        setUser None ;;
        setIsPremium false ;;
        when mounted (setIsLoading false) ;;
        ret None
    end.

(** Second segment of the callback: the awaited [fetchPremiumStatus]
    settles, then the closing [if (mounted) setIsLoading(false)]. *)
Definition authListener_afterFetch
    (mounted : bool) (q : Settled QueryResponse) : M unit :=
  fetchPremiumStatus_resume mounted q ;;
  when mounted (setIsLoading false).

(** ** The safety timer (second [useEffect]) *)

Definition loadingTimeout_ms : nat := 5000.

(** The callback handed to [setTimeout]. *)
Definition loadingTimeout : M unit :=
  consoleWrite "Auth loading safety timeout triggered" ;;
  setIsLoading false ;;
  setUser None ;;
  setSession None.

(** ** Account operations *)

(** The request an operation forwards to the identity provider. *)
Inductive ProviderCall :=
| SignInWithPassword (email password : string)
| SignUp (email password username : string)
| SignOut.

(** An operation cut at its single [await]: what runs before the request,
    the request, and what runs once it has settled.  The outcome of
    [op_resume] is the outcome of the promise the operation returned. *)
Record Operation := mkOperation {
  op_begin : M unit;
  op_call : ProviderCall;
  op_resume : Settled AuthResponse -> M unit
}.

Definition signIn_resume (r : Settled AuthResponse) : M unit :=
  try_finally
    (try_catch
       (resp <- await r ;;
        match error resp with
        | Some e => throw e
        | None => ret tt
        end ;;
        toast {| title := "Welcome back!";
                 description := "You've successfully signed in.";
                 variant := VariantDefault |})
       (fun e =>
          toast {| title := "Sign in failed";
                   description := message e;
                   variant := VariantDestructive |} ;;
          throw e))
    (setIsLoading false).

Definition signIn (email password : string) : Operation :=
  {| op_begin := setIsLoading true;
     op_call := SignInWithPassword email password;
     op_resume := signIn_resume |}.

Definition signUp_resume (r : Settled AuthResponse) : M unit :=
  try_finally
    (try_catch
       (resp <- await r ;;
        match error resp with
        | Some e => throw e
        | None => ret tt
        end ;;
        toast {| title := "Account created!";
                 description := "You've successfully signed up. Welcome!";
                 variant := VariantDefault |})
       (fun e =>
          toast {| title := "Sign up failed";
                   description := message e;
                   variant := VariantDestructive |} ;;
          throw e))
    (setIsLoading false).

Definition signUp (email password username : string) : Operation :=
  {| op_begin := setIsLoading true;
     op_call := SignUp email password username;
     op_resume := signUp_resume |}.

(** [signOut] awaits the provider and discards the value it resolves to. *)
Definition signOut_resume (r : Settled AuthResponse) : M unit :=
  try_finally
    (try_catch
       (_ <- await r ;;
        toast {| title := "Signed out";
                 description := "You've been successfully signed out.";
                 variant := VariantDefault |})
       (fun e =>
          toast {| title := "Sign out failed";
                   description := message e;
                   variant := VariantDestructive |}))
    (setIsLoading false).

Definition signOut : Operation :=
  {| op_begin := setIsLoading true;
     op_call := SignOut;
     op_resume := signOut_resume |}.

(** ** The context and [useAuth] *)

(** [AuthContextType]: the value handed to consumers. *)
Record AuthContextType := mkAuthContext {
  ctx_user : option User;
  ctx_session : option Session;
  ctx_isLoading : bool;
  ctx_signIn : string -> string -> Operation;
  ctx_signUp : string -> string -> string -> Operation;
  ctx_signOut : Operation;
  ctx_isPremium : bool
}.

(** The [value] prop that [AuthProvider] renders with. *)
Definition providerValue (s : AuthState) : AuthContextType :=
  {| ctx_user := user s;
     ctx_session := session s;
     ctx_isLoading := isLoading s;
     ctx_signIn := signIn;
     ctx_signUp := signUp;
     ctx_signOut := signOut;
     ctx_isPremium := isPremium s |}.

(** [useContext(AuthContext)]: the value of the nearest enclosing provider,
    innermost first, or the default [undefined] of [createContext]. *)
Definition useContext (enclosing : list AuthContextType) : option AuthContextType :=
  match enclosing with
  | v :: _ => Some v
  | [] => None
  end.

Definition useAuth (enclosing : list AuthContextType) : JsError + AuthContextType :=
  match useContext enclosing with
  | None => inl {| message := "useAuth must be used within an AuthProvider" |}
  | Some context => inr context
  end.

(** ** The mounted component as a transition system

    One transition per synchronous segment.  Between segments anything that
    is pending may settle, in any order: the three writers (initial query,
    change events, timer) are not coordinated by the code. *)

(** Which function is suspended on a [fetchPremiumStatus] call. *)
Inductive Awaiter := ByCheckSession | ByListener.

Definition awaiter_eqb (a b : Awaiter) : bool :=
  match a, b with
  | ByCheckSession, ByCheckSession => true
  | ByListener, ByListener => true
  | _, _ => false
  end.

(** A consumer calling one of the three operations of the context. *)
Inductive Invocation :=
| CallSignIn (email password : string)
| CallSignUp (email password username : string)
| CallSignOut.

Definition invoked (i : Invocation) : Operation :=
  match i with
  | CallSignIn email password => signIn email password
  | CallSignUp email password username => signUp email password username
  | CallSignOut => signOut
  end.

Definition invocation_eqb (a b : Invocation) : bool :=
  match a, b with
  | CallSignIn e p, CallSignIn e' p' =>
      String.eqb e e' && String.eqb p p'
  | CallSignUp e p n, CallSignUp e' p' n' =>
      String.eqb e e' && String.eqb p p' && String.eqb n n'
  | CallSignOut, CallSignOut => true
  | _, _ => false
  end.

(** Remove the first element accepted by [p]; [None] if there is none. *)
Fixpoint take_first {A} (p : A -> bool) (l : list A) : option (list A) :=
  match l with
  | [] => None
  | x :: rest =>
      if p x then Some rest
      else
        match take_first p rest with
        | Some rest' => Some (x :: rest')
        | None => None
        end
  end.

Record World := mkWorld {
  env : Env;
  (** [let mounted] of the mount effect *)
  mounted : bool;
  (** the timer has been set and has neither fired nor been cleared *)
  timerArmed : bool;
  (** [getSession()] has not settled yet *)
  sessionQueryPending : bool;
  (** [fetchPremiumStatus(uid)] calls that have not settled yet *)
  fetchesPending : list (Awaiter * string);
  (** operations whose provider request has not settled yet *)
  callsPending : list Invocation
}.

(** The component right after its effects have run: subscribed, the initial
    query in flight, the timer set. *)
Definition mountedWorld : World :=
  {| env := initialEnv;
     mounted := true;
     timerArmed := true;
     sessionQueryPending := true;
     fetchesPending := [];
     callsPending := [] |}.

Inductive Event :=
| SessionQuerySettled (r : Settled (option Session))
| AuthStateChange (event : string) (cur : option Session)
| PremiumFetchSettled (who : Awaiter) (uid : string) (q : Settled QueryResponse)
| TimerFired
| Unmounted
| OperationCalled (i : Invocation)
| OperationSettled (i : Invocation) (r : Settled AuthResponse).

Definition addFetch (who : Awaiter) (waiting : option string)
    (l : list (Awaiter * string)) : list (Awaiter * string) :=
  match waiting with
  | Some uid => l ++ [(who, uid)]
  | None => l
  end.

Definition resultValue {A} (dflt : A) (r : JsError + A) : A :=
  match r with
  | inr a => a
  | inl _ => dflt
  end.

Definition step (w : World) (ev : Event) : option World :=
  match ev with
  | SessionQuerySettled r =>
      if sessionQueryPending w then
        let (env', res) := checkSession_resume (mounted w) r (env w) in
        Some {| env := env';
                mounted := mounted w;
                timerArmed := timerArmed w;
                sessionQueryPending := false;
                fetchesPending :=
                  addFetch ByCheckSession (resultValue None res) (fetchesPending w);
                callsPending := callsPending w |}
      else None
  | AuthStateChange event cur =>
      let (env', res) := authListener (mounted w) event cur (env w) in
      Some {| env := env';
              mounted := mounted w;
              timerArmed := timerArmed w;
              sessionQueryPending := sessionQueryPending w;
              fetchesPending :=
                addFetch ByListener (resultValue None res) (fetchesPending w);
              callsPending := callsPending w |}
  | PremiumFetchSettled who uid q =>
      match take_first
              (fun p => awaiter_eqb (fst p) who && String.eqb (snd p) uid)
              (fetchesPending w) with
      | Some rest =>
          let k := match who with
                   | ByCheckSession => checkSession_afterFetch
                   | ByListener => authListener_afterFetch
                   end in
          Some {| env := fst (k (mounted w) q (env w));
                  mounted := mounted w;
                  timerArmed := timerArmed w;
                  sessionQueryPending := sessionQueryPending w;
                  fetchesPending := rest;
                  callsPending := callsPending w |}
      | None => None
      end
  | TimerFired =>
      if timerArmed w then
        Some {| env := fst (loadingTimeout (env w));
                mounted := mounted w;
                timerArmed := false;
                sessionQueryPending := sessionQueryPending w;
                fetchesPending := fetchesPending w;
                callsPending := callsPending w |}
      else None
  | Unmounted =>
      if mounted w then
        Some {| env := env w;
                mounted := false;
                timerArmed := false;
                sessionQueryPending := sessionQueryPending w;
                fetchesPending := fetchesPending w;
                callsPending := callsPending w |}
      else None
  | OperationCalled i =>
      Some {| env := fst (op_begin (invoked i) (env w));
              mounted := mounted w;
              timerArmed := timerArmed w;
              sessionQueryPending := sessionQueryPending w;
              fetchesPending := fetchesPending w;
              callsPending := callsPending w ++ [i] |}
  | OperationSettled i r =>
      match take_first (invocation_eqb i) (callsPending w) with
      | Some rest =>
          Some {| env := fst (op_resume (invoked i) r (env w));
                  mounted := mounted w;
                  timerArmed := timerArmed w;
                  sessionQueryPending := sessionQueryPending w;
                  fetchesPending := fetchesPending w;
                  callsPending := rest |}
      | None => None
      end
  end.

Fixpoint run (w : World) (evs : list Event) : option World :=
  match evs with
  | [] => Some w
  | ev :: rest =>
      match step w ev with
      | Some w' => run w' rest
      | None => None
      end
  end.

(** * The collection page ([Collection])

    The page keeps one state cell, the selected difficulty, and renders the
    filter buttons, one card per game that passes the filter, and a notice
    when none does. *)

(** [type Difficulty = 'all' | 'easy' | 'medium' | 'hard'] *)
Inductive Difficulty := DiffAll | DiffEasy | DiffMedium | DiffHard.

(** The string a [Difficulty] is at run time. *)
Definition difficultyText (d : Difficulty) : string :=
  match d with
  | DiffAll => "all"
  | DiffEasy => "easy"
  | DiffMedium => "medium"
  | DiffHard => "hard"
  end.

(** [a === b] on difficulties. *)
Definition difficulty_eqb (a b : Difficulty) : bool :=
  String.eqb (difficultyText a) (difficultyText b).

(** An entry of [gameVariants].  The list is declared in [utils/games]; this
    page reads [id] and [difficulty] and hands the rest to the card. *)
Record GameVariant := mkGame {
  game_id : string;
  game_name : string;
  game_difficulty : string
}.

(** [filteredGames], with the imported list as a parameter. *)
Definition filteredGames
    (gameVariants : list GameVariant) (difficulty : Difficulty) : list GameVariant :=
  if difficulty_eqb difficulty DiffAll then gameVariants
  else filter (fun game => String.eqb (game_difficulty game) (difficultyText difficulty))
         gameVariants.

Inductive ButtonVariant := ButtonDefault | ButtonOutline.

(** One rendered filter button.  [fb_classes] are the arguments of [cn] that
    are not [false]; [fb_onClick] is the argument given to [setDifficulty]. *)
Record FilterButton := mkFilterButton {
  fb_key : string;
  fb_variant : ButtonVariant;
  fb_classes : list string;
  fb_label : string;
  fb_onClick : Difficulty
}.

(** [cond && "classes"] as an argument of [cn]. *)
Definition classWhen (cond : bool) (classes : string) : list string :=
  if cond then [classes] else [].

Definition filterButton (difficulty diff : Difficulty) : FilterButton :=
  {| fb_key := difficultyText diff;
     fb_variant :=
       if difficulty_eqb difficulty diff then ButtonDefault else ButtonOutline;
     fb_classes :=
       ["capitalize"]
       ++ classWhen (difficulty_eqb difficulty diff && difficulty_eqb diff DiffEasy)
            "bg-green-500 hover:bg-green-600"
       ++ classWhen (difficulty_eqb difficulty diff && difficulty_eqb diff DiffMedium)
            "bg-yellow-500 hover:bg-yellow-600"
       ++ classWhen (difficulty_eqb difficulty diff && difficulty_eqb diff DiffHard)
            "bg-red-500 hover:bg-red-600";
     fb_label :=
       if difficulty_eqb diff DiffAll then "All Difficulties" else difficultyText diff;
     fb_onClick := diff |}.

Definition filterButtons (difficulty : Difficulty) : list FilterButton :=
  map (filterButton difficulty) [DiffAll; DiffEasy; DiffMedium; DiffHard].

(** One rendered card: its key, its animation delay in milliseconds and the
    game handed to [GameCard]. *)
Record GameSlot := mkGameSlot {
  slot_key : string;
  slot_delay : nat;
  slot_game : GameVariant
}.

(** [games.map((game, index) => ...)], from position [index] on. *)
Fixpoint gameSlotsFrom (index : nat) (games : list GameVariant) : list GameSlot :=
  match games with
  | [] => []
  | game :: rest =>
      {| slot_key := game_id game;
         slot_delay := 300 + index * 100;
         slot_game := game |} :: gameSlotsFrom (S index) rest
  end.

Record CollectionView := mkCollectionView {
  view_buttons : list FilterButton;
  view_slots : list GameSlot;
  (** the "No games found" notice *)
  view_notice : bool
}.

(** What [Collection] renders for a state of its cell. *)
Definition Collection
    (gameVariants : list GameVariant) (difficulty : Difficulty) : CollectionView :=
  let games := filteredGames gameVariants difficulty in
  {| view_buttons := filterButtons difficulty;
     view_slots := gameSlotsFrom 0 games;
     view_notice := Nat.eqb (length games) 0 |}.

(** Clicking a rendered button: the new value of the state cell. *)
Definition clickFilter (b : FilterButton) (difficulty : Difficulty) : Difficulty :=
  fb_onClick b.

(** * The donation page ([Donate])

    One state cell, the selected amount.  The effects of the page are the
    windows it opens and its console lines. *)

Record DonationOption := mkDonationOption { amount : nat; url : string }.

Definition DONATION_OPTIONS : list DonationOption :=
  [ {| amount := 5; url := "https://buy.stripe.com/eVa3cc9CN99H2AgeUU" |};
    {| amount := 10; url := "https://buy.stripe.com/eVa9AA6qB2Ljgr6eUV" |};
    {| amount := 15; url := "https://buy.stripe.com/aEU4gg7uFeu14IoaEH" |};
    {| amount := 20; url := "https://buy.stripe.com/bIY6oobKV3Pn3Ek002" |} ].

Record DonatePage := mkDonatePage {
  (** [useState<number | null>(null)] *)
  selectedAmount : option nat;
  (** calls of [window.open]: the address and the target *)
  windows : list (string * string);
  pageConsole : list string
}.

Definition initialDonatePage : DonatePage :=
  {| selectedAmount := None; windows := []; pageConsole := [] |}.

(** A number inside a template literal. *)
Definition numberText (n : nat) : string :=
  NilEmpty.string_of_uint (Nat.to_uint n).

(** [selectedAmount] inside a template literal. *)
Definition selectedText (sel : option nat) : string :=
  match sel with
  | Some n => numberText n
  | None => "null"
  end.

(** [selectedAmount] where a condition is expected: [null] and [0] are
    falsy. *)
Definition amountTruthy (sel : option nat) : bool :=
  match sel with
  | Some n => negb (Nat.eqb n 0)
  | None => false
  end.

Definition handleAmountSelect (a : nat) (page : DonatePage) : DonatePage :=
  {| selectedAmount := Some a;
     windows := windows page;
     pageConsole := pageConsole page |}.

Definition handleDonateClick (address : string) (page : DonatePage) : DonatePage :=
  {| selectedAmount := selectedAmount page;
     windows := windows page ++ [(address, "_blank")];
     pageConsole :=
       pageConsole page
       ++ [("Donating " ++ selectedText (selectedAmount page) ++ " dollars")%string] |}.

(** [o.amount === selectedAmount]; no amount equals [null]. *)
Definition amountSelected (sel : option nat) (o : DonationOption) : bool :=
  match sel with
  | Some n => Nat.eqb (amount o) n
  | None => false
  end.

(** [onClick] of the Donate button. *)
Definition donateButton_onClick (page : DonatePage) : DonatePage :=
  match find (amountSelected (selectedAmount page)) DONATION_OPTIONS with
  | Some option => handleDonateClick (url option) page
  | None => page
  end.

(** [disabled={!selectedAmount}] *)
Definition donateButton_disabled (page : DonatePage) : bool :=
  negb (amountTruthy (selectedAmount page)).

Definition donateButton_label (page : DonatePage) : string :=
  if amountTruthy (selectedAmount page)
  then "Donate $" ++ selectedText (selectedAmount page)
  else "Select an amount".

(** What the visitor can do: click the card at a position of the list, or
    click the Donate button. *)
Inductive DonateEvent :=
| CardClicked (position : nat)
| DonateClicked.

(** There is a card only for a position of the list, and a disabled button
    receives no click. *)
Definition donateStep (page : DonatePage) (ev : DonateEvent) : option DonatePage :=
  match ev with
  | CardClicked position =>
      match nth_error DONATION_OPTIONS position with
      | Some option => Some (handleAmountSelect (amount option) page)
      | None => None
      end
  | DonateClicked =>
      if donateButton_disabled page then None
      else Some (donateButton_onClick page)
  end.

Fixpoint donateRun (page : DonatePage) (evs : list DonateEvent) : option DonatePage :=
  match evs with
  | [] => Some page
  | ev :: rest =>
      match donateStep page ev with
      | Some page' => donateRun page' rest
      | None => None
      end
  end.

(** The option of the card clicked last, if any. *)
Definition lastCard (last : option nat) : option DonationOption :=
  match last with
  | Some position => nth_error DONATION_OPTIONS position
  | None => None
  end.

(** The addresses a sequence of clicks is expected to open: for each click on
    Donate, the link of the card clicked last before it. *)
Fixpoint linksExpected (last : option nat) (evs : list DonateEvent) : list string :=
  match evs with
  | [] => []
  | CardClicked position :: rest => linksExpected (Some position) rest
  | DonateClicked :: rest =>
      match lastCard last with
      | Some option => url option :: linksExpected last rest
      | None => linksExpected last rest
      end
  end.

(** ** Vocabulary of the properties *)

(** What consumers can read of a world. *)
Definition exposed (w : World) : AuthState := state (env w).

(** [respects R c]: whatever [c] does and however it ends, the state cells
    before and after are related by [R]. *)
Definition respects {A} (R : AuthState -> AuthState -> Prop) (c : M A) : Prop :=
  forall e, R (state e) (state (fst (c e))).

(** Neither [user], [session] nor [isPremium] is touched. *)
Definition sameIdentity (s s' : AuthState) : Prop :=
  user s' = user s /\ session s' = session s /\ isPremium s' = isPremium s.

(** Neither [user] nor [session] is touched. *)
Definition sameLogin (s s' : AuthState) : Prop :=
  user s' = user s /\ session s' = session s.

(** The failure the identity provider reports for a request: the promise
    rejects, or it resolves to a response whose [error] field is set. *)
Definition reportedError (r : Settled AuthResponse) : option JsError :=
  match r with
  | Rejected x => Some x
  | Resolved resp => error resp
  end.

(** [user] is the user of [session], or both are absent. *)
Definition coherent (s : AuthState) : Prop :=
  match user s, session s with
  | None, None => True
  | Some u, Some x => session_user x = Some u
  | _, _ => False
  end.

(** Both present or both absent. *)
Definition presentTogether (s : AuthState) : Prop :=
  (user s = None /\ session s = None) \/ (user s <> None /\ session s <> None).

(** Sample provider data for the concrete runs below. *)
Definition alice : User :=
  {| user_id := "u-1"; user_email := "alice@example.org" |}.

Definition aliceSession : Session :=
  {| access_token := "t-1"; session_user := Some alice |}.

(** Deliveries of the change-event subscription. *)
Definition isChangeEvent (ev : Event) : bool :=
  match ev with
  | AuthStateChange _ _ => true
  | _ => false
  end.

(** Events of the account operations: a call, or the completion of one. *)
Definition operationEvent (ev : Event) : bool :=
  match ev with
  | OperationCalled _ => true
  | OperationSettled _ _ => true
  | _ => false
  end.

(** Events that complete an account operation. *)
Definition settlesOperation (ev : Event) : bool :=
  match ev with
  | OperationSettled _ _ => true
  | _ => false
  end.

(** Events in which the entitlement store answers with a true flag. *)
Definition grantsPremium (ev : Event) : bool :=
  match ev with
  | PremiumFetchSettled _ _ (Resolved resp) => premiumFlag (data resp)
  | _ => false
  end.

Definition isEmpty {A} (l : list A) : bool :=
  match l with
  | [] => true
  | _ :: _ => false
  end.

(** Nothing is in flight, and the initial query has settled or the timer has
    fired. *)
Definition quiescent (w : World) : bool :=
  (negb (sessionQueryPending w) || negb (timerArmed w))
  && isEmpty (fetchesPending w) && isEmpty (callsPending w).

(** A filter button rendered in the highlighted variant. *)
Definition isHighlighted (b : FilterButton) : bool :=
  match fb_variant b with
  | ButtonDefault => true
  | ButtonOutline => false
  end.

(** A game passes the filter of a difficulty. *)
Definition passesFilter (difficulty : Difficulty) (game : GameVariant) : bool :=
  difficulty_eqb difficulty DiffAll
  || String.eqb (game_difficulty game) (difficultyText difficulty).

(** The selected amount is the amount of the card clicked last. *)
Definition tracksCard (page : DonatePage) (last : option nat) : Prop :=
  selectedAmount page = option_map amount (lastCard last).

(** * Properties *)

(** ** Frame reasoning for commands

    For a reflexive and transitive [R], [respects R] is closed under the
    combinators of the monad. *)

Section Frame.

Variable R : AuthState -> AuthState -> Prop.
Hypothesis R_refl : forall s, R s s.
Hypothesis R_trans : forall a b c, R a b -> R b c -> R a c.

Lemma respects_ret {A} (a : A) : respects R (ret a).
Proof. intro e. apply R_refl. Qed.

Lemma respects_throw {A} (x : JsError) : respects R (@throw A x).
Proof. intro e. apply R_refl. Qed.

Lemma respects_await {A} (p : Settled A) : respects R (await p).
Proof. intro e. destruct p; apply R_refl. Qed.

Lemma respects_toast (t : Toast) : respects R (toast t).
Proof. intro e. apply R_refl. Qed.

Lemma respects_consoleWrite (l : string) : respects R (consoleWrite l).
Proof. intro e. apply R_refl. Qed.

Lemma respects_bind {A B} (c : M A) (k : A -> M B) :
  respects R c -> (forall a, respects R (k a)) -> respects R (bind c k).
Proof.
  intros Hc Hk e. unfold bind.
  specialize (Hc e). destruct (c e) as [e' [x | a]]; simpl in *.
  - exact Hc.
  - eapply R_trans; [exact Hc | apply Hk].
Qed.

Lemma respects_try_catch {A} (body : M A) (handler : JsError -> M A) :
  respects R body -> (forall x, respects R (handler x)) ->
  respects R (try_catch body handler).
Proof.
  intros Hb Hh e. unfold try_catch.
  specialize (Hb e). destruct (body e) as [e' [x | a]]; simpl in *.
  - eapply R_trans; [exact Hb | apply Hh].
  - exact Hb.
Qed.

Lemma respects_try_finally {A} (body : M A) (fin : M unit) :
  respects R body -> respects R fin -> respects R (try_finally body fin).
Proof.
  intros Hb Hf e. unfold try_finally.
  specialize (Hb e). destruct (body e) as [e' r]; simpl in *.
  specialize (Hf e'). destruct (fin e') as [e'' [x | u]]; simpl in *;
    eapply R_trans; eauto.
Qed.

Lemma respects_when (b : bool) (c : M unit) :
  respects R c -> respects R (when b c).
Proof. destruct b; simpl; intros H e; [apply H | apply R_refl]. Qed.

Lemma respects_when_false (c : M unit) : respects R (when false c).
Proof. intro e. apply R_refl. Qed.

Lemma respects_option_match {A B} (o : option A) (f : A -> M B) (g : M B) :
  (forall a, respects R (f a)) -> respects R g ->
  respects R (match o with Some a => f a | None => g end).
Proof. destruct o; auto. Qed.

End Frame.

Create HintDb frame discriminated.
#[export] Hint Resolve respects_ret respects_throw respects_await respects_toast
  respects_consoleWrite respects_bind respects_try_catch respects_try_finally
  respects_when_false respects_option_match : frame.

Lemma sameIdentity_refl s : sameIdentity s s.
Proof. repeat split. Qed.

Lemma sameIdentity_trans a b c :
  sameIdentity a b -> sameIdentity b c -> sameIdentity a c.
Proof. unfold sameIdentity. intuition congruence. Qed.

Lemma sameLogin_refl s : sameLogin s s.
Proof. split; reflexivity. Qed.

Lemma sameLogin_trans a b c : sameLogin a b -> sameLogin b c -> sameLogin a c.
Proof. unfold sameLogin. intuition congruence. Qed.

Lemma eq_state_trans (a b c : AuthState) : a = b -> b = c -> a = c.
Proof. congruence. Qed.

#[export] Hint Resolve sameIdentity_refl sameIdentity_trans
  sameLogin_refl sameLogin_trans eq_state_trans : frame.

Lemma setIsLoading_sameIdentity b : respects sameIdentity (setIsLoading b).
Proof. intro e. repeat split. Qed.

Lemma setIsLoading_sameLogin b : respects sameLogin (setIsLoading b).
Proof. intro e. split; reflexivity. Qed.

Lemma setIsPremium_sameLogin b : respects sameLogin (setIsPremium b).
Proof. intro e. split; reflexivity. Qed.

#[export] Hint Resolve setIsLoading_sameIdentity setIsLoading_sameLogin
  setIsPremium_sameLogin : frame.

Ltac frame :=
  repeat first
    [ progress intros
    | apply respects_bind
    | apply respects_try_catch
    | apply respects_try_finally
    | apply respects_when
    | solve [ eauto with frame ] ].

(** ** The account operations *)

Lemma signIn_resume_sameIdentity r : respects sameIdentity (signIn_resume r).
Proof. unfold signIn_resume. frame. Qed.

Lemma signUp_resume_sameIdentity r : respects sameIdentity (signUp_resume r).
Proof. unfold signUp_resume. frame. Qed.

Lemma signOut_resume_sameIdentity r : respects sameIdentity (signOut_resume r).
Proof. unfold signOut_resume. frame. Qed.

Lemma op_begin_sameIdentity i : respects sameIdentity (op_begin (invoked i)).
Proof. destruct i; simpl; frame. Qed.

Lemma op_resume_sameIdentity i r : respects sameIdentity (op_resume (invoked i) r).
Proof.
  destruct i; simpl;
    auto using signIn_resume_sameIdentity, signUp_resume_sameIdentity,
      signOut_resume_sameIdentity.
Qed.

Lemma op_resume_clears_loading i r e :
  isLoading (state (fst (op_resume (invoked i) r e))) = false.
Proof.
  destruct i; destruct r as [[[x |]] | x]; reflexivity.
Qed.

Lemma signOut_never_raises r e : snd (signOut_resume r e) = inr tt.
Proof. destruct r; reflexivity. Qed.

Lemma signOut_rejected_notifies x e :
  toasts (fst (signOut_resume (Rejected x) e)) =
  (toasts e ++ [ {| title := "Sign out failed";
                   description := message x;
                   variant := VariantDestructive |} ])%list.
Proof. reflexivity. Qed.

(** C4. [signIn]: when the provider reports an error, one destructive
    notification carrying the provider's message is emitted and the same
    error is raised to the caller; when it reports none, one affirmative
    notification is emitted and nothing is raised.  Either way [isLoading] is
    false once the call has completed.  The credentials are what is forwarded,
    and [isLoading] is true while the request is in flight. *)
Theorem signIn_contract (email password : string)
    (r : Settled AuthResponse) (e : Env) :
  let op := signIn email password in
  let out := op_resume op r e in
  op_call op = SignInWithPassword email password /\
  isLoading (state (fst (op_begin op e))) = true /\
  isLoading (state (fst out)) = false /\
  match reportedError r with
  | Some x =>
      snd out = inl x /\
      toasts (fst out) =
        (toasts e ++ [ {| title := "Sign in failed";
                         description := message x;
                         variant := VariantDestructive |} ])%list
  | None =>
      snd out = inr tt /\
      toasts (fst out) =
        (toasts e ++ [ {| title := "Welcome back!";
                         description := "You've successfully signed in.";
                         variant := VariantDefault |} ])%list
  end.
Proof.
  destruct r as [[[x |]] | x]; simpl; repeat split; reflexivity.
Qed.

(** C5, evaluated where the code departs from it.  The provider resolves the
    sign-out request with its [error] field set, the way it reports failures
    to [signIn] and [signUp]; [signOut] never looks at the resolved value, so
    the only notification is the affirmative one.  Nothing is raised. *)
Theorem signOut_drops_reported_error :
  let failure := {| message := "Network request failed" |} in
  let r := Resolved {| error := Some failure |} in
  let out := op_resume signOut r initialEnv in
  reportedError r = Some failure /\
  toasts (fst out) =
    [ {| title := "Signed out";
         description := "You've been successfully signed out.";
         variant := VariantDefault |} ] /\
  snd out = inr tt /\
  isLoading (state (fst out)) = false.
Proof. repeat split; reflexivity. Qed.

(** C7, as the code has it.  None of the three operations writes [user],
    [session] or [isPremium]: the cells are the same before and after the
    segment that starts the request and before and after the segment that
    handles its outcome, for every outcome.  The change-event callback writes
    them (a session with a user installs both, no session clears all three),
    and it is not the only writer: the initial query installs [user] and
    [session], the entitlement fetch sets [isPremium], and the timer clears
    [user] and [session]. *)
Theorem operations_leave_identity
    (i : Invocation) (r : Settled AuthResponse) (e : Env) :
  sameIdentity (state e) (state (fst (op_begin (invoked i) e))) /\
  sameIdentity (state e) (state (fst (op_resume (invoked i) r e))) /\
  (forall event tok u,
      let x := {| access_token := tok; session_user := Some u |} in
      let s' := state (fst (authListener true event (Some x) e)) in
      user s' = Some u /\ session s' = Some x) /\
  (forall event,
      let s' := state (fst (authListener true event None e)) in
      user s' = None /\ session s' = None /\ isPremium s' = false) /\
  (forall tok u,
      let x := {| access_token := tok; session_user := Some u |} in
      let s' := state (fst (checkSession_resume true (Resolved (Some x)) e)) in
      user s' = Some u /\ session s' = Some x) /\
  (forall resp,
      isPremium (state (fst (fetchPremiumStatus_resume true (Resolved resp) e)))
      = premiumFlag (data resp)) /\
  (let s' := state (fst (loadingTimeout e)) in
   user s' = None /\ session s' = None).
Proof.
  split; [apply op_begin_sameIdentity |].
  split; [apply op_resume_sameIdentity |].
  split; [intros; split; reflexivity |].
  split; [intros; repeat split; reflexivity |].
  split; [intros; split; reflexivity |].
  split; [intros; reflexivity |].
  split; reflexivity.
Qed.

(** C7's closing clause fails as stated.  In this run no change event is
    delivered: the initial query installs Alice's session and her user, the
    entitlement fetch sets [isPremium], and the timer then clears [user] and
    [session]. *)
Lemma identity_written_without_change_event :
  let installs :=
    [ SessionQuerySettled (Resolved (Some aliceSession));
      PremiumFetchSettled ByCheckSession "u-1"
        (Resolved {| data := Some {| is_premium := Some true |} |}) ] in
  existsb isChangeEvent (installs ++ [TimerFired]) = false /\
  exposed mountedWorld =
    {| user := None; session := None; isLoading := true; isPremium := false |} /\
  option_map exposed (run mountedWorld installs) =
    Some {| user := Some alice; session := Some aliceSession;
            isLoading := false; isPremium := true |} /\
  option_map exposed (run mountedWorld (installs ++ [TimerFired])) =
    Some {| user := None; session := None;
            isLoading := false; isPremium := true |}.
Proof. repeat split; reflexivity. Qed.

(** ** Access through [useAuth] *)

(** C9. With no enclosing provider [useAuth] raises the programming error
    and yields no value; under a provider it returns that provider's value,
    whose fields are the four state cells and the three operations. *)
Theorem useAuth_scope :
  useAuth [] = inl {| message := "useAuth must be used within an AuthProvider" |} /\
  (forall (s : AuthState) (outer : list AuthContextType),
      useAuth (providerValue s :: outer) = inr (providerValue s)) /\
  (forall s : AuthState,
      let c := providerValue s in
      ctx_user c = user s /\ ctx_session c = session s /\
      ctx_isLoading c = isLoading s /\ ctx_isPremium c = isPremium s /\
      ctx_signIn c = signIn /\ ctx_signUp c = signUp /\ ctx_signOut c = signOut).
Proof.
  split; [reflexivity |].
  split; [reflexivity |].
  intro s. repeat split; reflexivity.
Qed.

(** ** The entitlement fetch *)

Lemma premiumFlag_cases :
  premiumFlag None = false /\
  premiumFlag (Some {| is_premium := None |}) = false /\
  (forall b, premiumFlag (Some {| is_premium := Some b |}) = b).
Proof. repeat split. Qed.

Lemma fetchPremiumStatus_resume_sameLogin m q :
  respects sameLogin (fetchPremiumStatus_resume m q).
Proof. unfold fetchPremiumStatus_resume. frame. Qed.

Lemma fetchPremiumStatus_resume_returns m q e :
  snd (fetchPremiumStatus_resume m q e) = inr tt.
Proof. destruct q, m; reflexivity. Qed.

(** C8, as the code has it.  The fetch never raises and never notifies.  If
    the query resolves while the effect is live, [isPremium] becomes the flag
    of the returned row, and false when there is no row or the flag is null;
    after teardown nothing is written.  If the query rejects, one line goes
    to the console and the state cells, [isPremium] included, keep the values
    they had. *)
Theorem fetchPremiumStatus_settled
    (m : bool) (q : Settled QueryResponse) (e : Env) :
  let out := fetchPremiumStatus_resume m q e in
  snd out = inr tt /\
  toasts (fst out) = toasts e /\
  sameLogin (state e) (state (fst out)) /\
  isLoading (state (fst out)) = isLoading (state e) /\
  match q with
  | Resolved resp =>
      console (fst out) = console e /\
      isPremium (state (fst out)) =
        (if m then premiumFlag (data resp) else isPremium (state e))
  | Rejected x =>
      console (fst out) =
        (console e ++ [("Error fetching subscription data: " ++ message x)%string])%list /\
      isPremium (state (fst out)) = isPremium (state e)
  end.
Proof.
  destruct q as [resp | x], m; simpl; repeat split; reflexivity.
Qed.

(** C8 as stated fails when the query rejects after an earlier fetch had set
    the flag: the entitlement store returned nothing, the failure is logged,
    and [isPremium] is still true. *)
Lemma fetch_failure_keeps_premium :
  let before :=
    {| state := {| user := Some {| user_id := "u-1"; user_email := "a@example.org" |};
                   session := Some {| access_token := "t-1";
                                      session_user :=
                                        Some {| user_id := "u-1";
                                                user_email := "a@example.org" |} |};
                   isLoading := false;
                   isPremium := true |};
       toasts := [];
       console := [] |} in
  let out := fetchPremiumStatus_resume true
               (Rejected {| message := "Failed to fetch" |}) before in
  isPremium (state (fst out)) = true /\
  console (fst out) = ["Error fetching subscription data: Failed to fetch"] /\
  snd out = inr tt.
Proof. repeat split; reflexivity. Qed.

(** ** The initial session query *)

Lemma checkSession_afterFetch_sameLogin m q :
  respects sameLogin (checkSession_afterFetch m q).
Proof.
  unfold checkSession_afterFetch, checkSession_finally.
  frame; auto using fetchPremiumStatus_resume_sameLogin.
Qed.

Lemma authListener_afterFetch_sameLogin m q :
  respects sameLogin (authListener_afterFetch m q).
Proof.
  unfold authListener_afterFetch.
  frame; auto using fetchPremiumStatus_resume_sameLogin.
Qed.

(** The initial query never takes a login away: it installs one or leaves
    [user] and [session] as they are. *)
Lemma checkSession_resume_login m r e :
  let out := checkSession_resume m r e in
  sameLogin (state e) (state (fst out)) \/
  exists x u, m = true /\ r = Resolved (Some x) /\ session_user x = Some u /\
              session (state (fst out)) = Some x /\
              user (state (fst out)) = Some u /\
              snd out = inr (Some (user_id u)).
Proof.
  destruct r as [[x |] | err], m; simpl; try (left; split; reflexivity).
  unfold checkSession_resume, checkSession_try, try_catch, bind, await, ret,
    sessionUser; simpl.
  destruct (session_user x) as [u |] eqn:Hu; simpl.
  - right. exists x, u. repeat split; reflexivity || assumption.
  - left. split; reflexivity.
Qed.

(** C10. When the initial query resolves with no session, the segment
    leaves [user], [session] and [isPremium] as they were, starts no
    entitlement fetch, and its one write is [isLoading := false] (no write at
    all after teardown). *)
Theorem checkSession_no_session (m : bool) (e : Env) :
  let out := checkSession_resume m (Resolved None) e in
  sameIdentity (state e) (state (fst out)) /\
  isLoading (state (fst out)) = (if m then false else isLoading (state e)) /\
  snd out = inr None /\
  toasts (fst out) = toasts e /\
  console (fst out) = console e.
Proof. destruct m; repeat split; reflexivity. Qed.

(** ** The change-event callback and the timer *)

Lemma authListener_login m event cur e :
  let out := authListener m event cur e in
  sameLogin (state e) (state (fst out)) \/
  (exists x u, session_user x = Some u /\
               session (state (fst out)) = Some x /\
               user (state (fst out)) = Some u) \/
  (session (state (fst out)) = None /\ user (state (fst out)) = None).
Proof.
  destruct m; simpl; [| left; split; reflexivity].
  unfold authListener, bind, ret, sessionUser; simpl.
  destruct cur as [x |]; simpl.
  - destruct (session_user x) as [u |] eqn:Hu; simpl.
    + right; left. exists x, u. repeat split; reflexivity || assumption.
    + right; right. split; reflexivity.
  - right; right. split; reflexivity.
Qed.

(** What the timer callback writes, whatever the state it finds. *)
Lemma loadingTimeout_effect e :
  state (fst (loadingTimeout e)) =
  {| user := None; session := None;
     isLoading := false; isPremium := isPremium (state e) |}.
Proof. reflexivity. Qed.

(** ** The login invariant *)

Lemma coherent_presentTogether s : coherent s -> presentTogether s.
Proof.
  unfold coherent, presentTogether.
  destruct (user s), (session s); intro H; try contradiction.
  - right. split; discriminate.
  - left. split; reflexivity.
Qed.

Lemma coherent_sameLogin s s' : sameLogin s s' -> coherent s -> coherent s'.
Proof. unfold sameLogin, coherent. intros [-> ->]. trivial. Qed.

Lemma coherent_installed s x u :
  session_user x = Some u -> session s = Some x -> user s = Some u -> coherent s.
Proof. unfold coherent. intros H -> ->. exact H. Qed.

Lemma coherent_cleared s : session s = None -> user s = None -> coherent s.
Proof. unfold coherent. intros -> ->. exact I. Qed.

Lemma sameIdentity_sameLogin s s' : sameIdentity s s' -> sameLogin s s'.
Proof. unfold sameIdentity, sameLogin. tauto. Qed.

Lemma step_coherent w ev w' :
  step w ev = Some w' -> coherent (state (env w)) -> coherent (state (env w')).
Proof.
  destruct ev as [r | event cur | who uid q | | | i | i r]; simpl; intros Hstep Hc.
  - destruct (sessionQueryPending w); [| discriminate].
    pose proof (checkSession_resume_login (mounted w) r (env w)) as H.
    destruct (checkSession_resume (mounted w) r (env w)) as [e' res].
    injection Hstep as <-. simpl in *.
    destruct H as [H | (x & u & _ & _ & Hu & Hs & Hus & _)].
    + eapply coherent_sameLogin; eassumption.
    + eapply coherent_installed; eassumption.
  - pose proof (authListener_login (mounted w) event cur (env w)) as H.
    destruct (authListener (mounted w) event cur (env w)) as [e' res].
    injection Hstep as <-. simpl in *.
    destruct H as [H | [(x & u & Hu & Hs & Hus) | [Hs Hus]]].
    + eapply coherent_sameLogin; eassumption.
    + eapply coherent_installed; eassumption.
    + apply coherent_cleared; assumption.
  - destruct (take_first _ (fetchesPending w)); [| discriminate].
    injection Hstep as <-. simpl.
    eapply coherent_sameLogin; [| exact Hc].
    destruct who.
    + apply checkSession_afterFetch_sameLogin.
    + apply authListener_afterFetch_sameLogin.
  - destruct (timerArmed w); [| discriminate].
    injection Hstep as <-. exact I.
  - destruct (mounted w); [| discriminate].
    injection Hstep as <-. exact Hc.
  - injection Hstep as <-. simpl.
    eapply coherent_sameLogin; [| exact Hc].
    apply sameIdentity_sameLogin, op_begin_sameIdentity.
  - destruct (take_first _ (callsPending w)); [| discriminate].
    injection Hstep as <-. simpl.
    eapply coherent_sameLogin; [| exact Hc].
    apply sameIdentity_sameLogin, op_resume_sameIdentity.
Qed.

Lemma run_coherent evs : forall w w',
  run w evs = Some w' -> coherent (state (env w)) -> coherent (state (env w')).
Proof.
  induction evs as [| ev rest IH]; simpl; intros w w' Hrun Hc.
  - injection Hrun as <-. exact Hc.
  - destruct (step w ev) as [w1 |] eqn:Hstep; [| discriminate].
    eapply IH; [exact Hrun |]. eapply step_coherent; eassumption.
Qed.

(** C1. Along every sequence of initial-query outcomes, change events,
    entitlement outcomes, timer firings, operation calls and teardown, the
    state committed by each segment has [user] and [session] both present or
    both absent; when present, [user] is the user of [session]. *)
Theorem login_invariant (evs : list Event) (w : World) :
  run mountedWorld evs = Some w ->
  presentTogether (state (env w)) /\ coherent (state (env w)).
Proof.
  intro Hrun.
  assert (coherent (state (env w))) as Hc.
  { eapply run_coherent; [exact Hrun | exact I]. }
  split; [apply coherent_presentTogether |]; exact Hc.
Qed.

(** The invariant at the state reached when Alice's sign-in event arrives and
    the initial query then finds nothing. *)
Lemma login_invariant_witness :
  let s := {| user := Some alice; session := Some aliceSession;
              isLoading := false; isPremium := false |} in
  presentTogether s /\ coherent s.
Proof.
  exact (login_invariant
           [ AuthStateChange "SIGNED_IN" (Some aliceSession);
             SessionQuerySettled (Resolved None) ]
           {| env := {| state := {| user := Some alice; session := Some aliceSession;
                                    isLoading := false; isPremium := false |};
                        toasts := [];
                        console := ["Auth state changed: SIGNED_IN u-1"] |};
              mounted := true;
              timerArmed := true;
              sessionQueryPending := false;
              fetchesPending := [(ByListener, "u-1")];
              callsPending := [] |}
           eq_refl).
Defined.

(** C2, evaluated where the code departs from it.  The initial query finds
    Alice's session and her entitlement lookup completes, so the login is
    established and loading is over; the timer then fires and the callback,
    which tests nothing, clears [user] and [session]. *)
Theorem timer_clears_established_login :
  let established :=
    [ SessionQuerySettled (Resolved (Some aliceSession));
      PremiumFetchSettled ByCheckSession "u-1" (Resolved {| data := None |}) ] in
  option_map exposed (run mountedWorld established) =
    Some {| user := Some alice; session := Some aliceSession;
            isLoading := false; isPremium := false |} /\
  option_map exposed (run mountedWorld (established ++ [TimerFired])) =
    Some {| user := None; session := None;
            isLoading := false; isPremium := false |}.
Proof. split; reflexivity. Qed.

(** C3, evaluated where the code departs from it.  Alice signs in and her
    entitlement row says premium; the timer then fires.  Its callback clears
    [user] and [session] and has no [setIsPremium], so the state it commits
    has no user and [isPremium] true. *)
Theorem timer_leaves_premium_set :
  let premium :=
    [ AuthStateChange "SIGNED_IN" (Some aliceSession);
      PremiumFetchSettled ByListener "u-1"
        (Resolved {| data := Some {| is_premium := Some true |} |}) ] in
  option_map exposed (run mountedWorld premium) =
    Some {| user := Some alice; session := Some aliceSession;
            isLoading := false; isPremium := true |} /\
  option_map exposed (run mountedWorld (premium ++ [TimerFired])) =
    Some {| user := None; session := None;
            isLoading := false; isPremium := true |}.
Proof. split; reflexivity. Qed.

(** ** Teardown *)

Lemma fetchPremiumStatus_resume_unmounted q e :
  state (fst (fetchPremiumStatus_resume false q e)) = state e.
Proof. destruct q; reflexivity. Qed.

Lemma step_unmounted_disarms w w' :
  step w Unmounted = Some w' -> mounted w' = false /\ step w' TimerFired = None.
Proof.
  simpl. destruct (mounted w); [| discriminate].
  intro H. injection H as <-. split; reflexivity.
Qed.

(** C6 as stated fails for the operations.  A sign-in is in flight when the
    component is torn down; when the provider answers, the [finally] block
    writes [isLoading] although the flag of the mount effect is false. *)
Lemma operation_writes_after_teardown :
  let i := CallSignIn "alice@example.org" "secret" in
  let torn := [ OperationCalled i; Unmounted ] in
  let answered := OperationSettled i (Resolved {| error := None |}) in
  option_map (fun w => (mounted w, isLoading (exposed w)))
    (run mountedWorld torn) = Some (false, true) /\
  option_map (fun w => (mounted w, isLoading (exposed w)))
    (run mountedWorld (torn ++ [answered])) = Some (false, false).
Proof. split; reflexivity. Qed.

(** C6, as the code has it.  The flag belongs to the mount effect, and every
    segment of that effect (the initial query, the change-event callback, the
    entitlement fetch awaited by either) consults it: run with the flag
    false, each leaves the four state cells as they were.  The segments of
    [signIn], [signUp] and [signOut] take no flag and always write
    [isLoading := false]. *)
Theorem effect_segments_guarded (e : Env) :
  (forall r, state (fst (checkSession_resume false r e)) = state e) /\
  (forall q, state (fst (checkSession_afterFetch false q e)) = state e) /\
  (forall event cur, state (fst (authListener false event cur e)) = state e) /\
  (forall q, state (fst (authListener_afterFetch false q e)) = state e) /\
  (forall q, state (fst (fetchPremiumStatus_resume false q e)) = state e) /\
  (forall i r, isLoading (state (fst (op_resume (invoked i) r e))) = false).
Proof.
  split; [intros [[x |] | x]; reflexivity |].
  split; [intros [resp | x]; reflexivity |].
  split; [intros event cur; reflexivity |].
  split; [intros [resp | x]; reflexivity |].
  split; [intro q; apply fetchPremiumStatus_resume_unmounted |].
  intros i r. apply op_resume_clears_loading.
Qed.

(** * Further properties of the session manager *)

(** ** [signUp] and [signOut] *)

(** X1. [signUp] forwards the e-mail, the password and the username, shows
    loading while the request is in flight, and on its outcome behaves like
    [signIn]: a reported error gives one destructive notification with the
    provider's message and is raised to the caller, no error gives one
    affirmative notification and no raise; [isLoading] ends false. *)
Theorem signUp_contract (email password username : string)
    (r : Settled AuthResponse) (e : Env) :
  let op := signUp email password username in
  let out := op_resume op r e in
  op_call op = SignUp email password username /\
  isLoading (state (fst (op_begin op e))) = true /\
  isLoading (state (fst out)) = false /\
  match reportedError r with
  | Some x =>
      snd out = inl x /\
      toasts (fst out) =
        (toasts e ++ [ {| title := "Sign up failed";
                          description := message x;
                          variant := VariantDestructive |} ])%list
  | None =>
      snd out = inr tt /\
      toasts (fst out) =
        (toasts e ++ [ {| title := "Account created!";
                          description := "You've successfully signed up. Welcome!";
                          variant := VariantDefault |} ])%list
  end.
Proof.
  destruct r as [[[x |]] | x]; simpl; repeat split; reflexivity.
Qed.

(** X2. [signOut], for every outcome of the provider request: nothing is
    raised, [isLoading] ends false, the console is untouched, and exactly one
    notification is added, which is the destructive one precisely when the
    promise rejected; a resolved promise always gives the affirmative one. *)
Theorem signOut_contract (r : Settled AuthResponse) (e : Env) :
  let out := op_resume signOut r e in
  snd out = inr tt /\
  isLoading (state (fst out)) = false /\
  console (fst out) = console e /\
  toasts (fst out) =
    (toasts e ++
     [ match r with
       | Rejected x =>
           {| title := "Sign out failed";
              description := message x;
              variant := VariantDestructive |}
       | Resolved _ =>
           {| title := "Signed out";
              description := "You've been successfully signed out.";
              variant := VariantDefault |}
       end ])%list.
Proof. destruct r; repeat split; reflexivity. Qed.

(** ** The initial query and the change-event callback *)

(** X3. When [getSession] fails, [checkSession] swallows the failure: one
    console line, no notification, nothing raised, no entitlement fetch,
    [user], [session] and [isPremium] untouched, and loading ended (unless
    the component is already torn down). *)
Theorem checkSession_provider_error (m : bool) (x : JsError) (e : Env) :
  let out := checkSession_resume m (Rejected x) e in
  snd out = inr None /\
  toasts (fst out) = toasts e /\
  console (fst out) =
    (console e ++ [("Error getting session: " ++ message x)%string])%list /\
  sameIdentity (state e) (state (fst out)) /\
  isLoading (state (fst out)) = (if m then false else isLoading (state e)).
Proof. destruct m; repeat split; reflexivity. Qed.

(** X4. A session that carries a user is handled the same way by the initial
    query and by a change event: both install the session and its user, leave
    [isLoading] and [isPremium] as they are until the entitlement fetch
    settles, and wait for the fetch of that user's id. *)
Theorem session_with_user_installed
    (event : string) (x : Session) (u : User) (e : Env) :
  session_user x = Some u ->
  let installed :=
    {| user := Some u; session := Some x;
       isLoading := isLoading (state e); isPremium := isPremium (state e) |} in
  let q := checkSession_resume true (Resolved (Some x)) e in
  let l := authListener true event (Some x) e in
  state (fst q) = installed /\ snd q = inr (Some (user_id u)) /\
  state (fst l) = installed /\ snd l = inr (Some (user_id u)) /\
  toasts (fst q) = toasts e /\ toasts (fst l) = toasts e.
Proof.
  intros Hu.
  unfold checkSession_resume, checkSession_try, authListener, try_catch, bind,
    await, ret, sessionUser; simpl.
  rewrite Hu; simpl. repeat split; reflexivity.
Qed.

Lemma session_with_user_installed_witness :
  state (fst (checkSession_resume true (Resolved (Some aliceSession)) initialEnv)) =
    {| user := Some alice; session := Some aliceSession;
       isLoading := true; isPremium := false |} /\
  snd (authListener true "SIGNED_IN" (Some aliceSession) initialEnv) =
    inr (Some "u-1").
Proof.
  destruct (session_with_user_installed "SIGNED_IN" aliceSession alice initialEnv
              eq_refl) as (Hq & _ & _ & Hl & _).
  split; [exact Hq | exact Hl].
Defined.

(** X5. While the component is live, every way through [checkSession] and
    through the change-event callback ends with [isLoading] false: either the
    first segment already does it, or it waits for an entitlement fetch and
    the segment after the fetch does it, whether the fetch resolved or
    rejected. *)
Theorem live_effect_ends_loading (e : Env) :
  (forall r,
      let out := checkSession_resume true r e in
      (exists uid, snd out = inr (Some uid)) \/
      (snd out = inr None /\ isLoading (state (fst out)) = false)) /\
  (forall event cur,
      let out := authListener true event cur e in
      (exists uid, snd out = inr (Some uid)) \/
      (snd out = inr None /\ isLoading (state (fst out)) = false)) /\
  (forall q, isLoading (state (fst (checkSession_afterFetch true q e))) = false) /\
  (forall q, isLoading (state (fst (authListener_afterFetch true q e))) = false).
Proof.
  split; [| split; [| split]].
  - intros [[x |] | err]; simpl; try (right; split; reflexivity).
    unfold checkSession_resume, checkSession_try, try_catch, bind, await, ret,
      sessionUser; simpl.
    destruct (session_user x) as [u |]; simpl.
    + left. eexists. reflexivity.
    + right. split; reflexivity.
  - intros event cur.
    unfold authListener, bind, ret, sessionUser; simpl.
    destruct cur as [x |]; simpl; [destruct (session_user x) as [u |]; simpl |].
    + left. eexists. reflexivity.
    + right. split; reflexivity.
    + right. split; reflexivity.
  - intros [resp | x]; reflexivity.
  - intros [resp | x]; reflexivity.
Qed.

(** ** Lemmas about single segments, shared by the results on runs *)

Lemma checkSession_resume_live r e :
  let out := checkSession_resume true r e in
  (exists uid, snd out = inr (Some uid)) \/
  (snd out = inr None /\ isLoading (state (fst out)) = false).
Proof.
  destruct r as [[x |] | err]; simpl; try (right; split; reflexivity).
  unfold checkSession_resume, checkSession_try, try_catch, bind, await, ret,
    sessionUser; simpl.
  destruct (session_user x) as [u |]; simpl.
  - left. eexists. reflexivity.
  - right. split; reflexivity.
Qed.

Lemma authListener_live event cur e :
  let out := authListener true event cur e in
  (exists uid, snd out = inr (Some uid)) \/
  (snd out = inr None /\ isLoading (state (fst out)) = false).
Proof.
  unfold authListener, bind, ret, sessionUser; simpl.
  destruct cur as [x |]; simpl; [destruct (session_user x) as [u |]; simpl |].
  - left. eexists. reflexivity.
  - right. split; reflexivity.
  - right. split; reflexivity.
Qed.

Lemma afterFetch_live who q e :
  isLoading
    (state (fst (match who with
                 | ByCheckSession => checkSession_afterFetch
                 | ByListener => authListener_afterFetch
                 end true q e))) = false.
Proof. destruct who, q; reflexivity. Qed.

Lemma checkSession_resume_unmounted r e :
  state (fst (checkSession_resume false r e)) = state e /\
  snd (checkSession_resume false r e) = inr None.
Proof. destruct r as [[x |] | x]; split; reflexivity. Qed.

Lemma authListener_unmounted event cur e :
  state (fst (authListener false event cur e)) = state e /\
  snd (authListener false event cur e) = inr None.
Proof. split; reflexivity. Qed.

Lemma afterFetch_unmounted who q e :
  state (fst (match who with
              | ByCheckSession => checkSession_afterFetch
              | ByListener => authListener_afterFetch
              end false q e)) = state e.
Proof. destruct who, q; reflexivity. Qed.

Lemma checkSession_resume_quiet m r e :
  toasts (fst (checkSession_resume m r e)) = toasts e /\
  isPremium (state (fst (checkSession_resume m r e))) = isPremium (state e).
Proof.
  destruct r as [[x |] | err], m; try (split; reflexivity).
  unfold checkSession_resume, checkSession_try, try_catch, bind, await, ret,
    sessionUser; simpl.
  destruct (session_user x); split; reflexivity.
Qed.

Lemma authListener_quiet m event cur e :
  toasts (fst (authListener m event cur e)) = toasts e /\
  (isPremium (state (fst (authListener m event cur e))) = isPremium (state e) \/
   isPremium (state (fst (authListener m event cur e))) = false).
Proof.
  destruct m; [| split; [| left]; reflexivity].
  unfold authListener, bind, ret, sessionUser; simpl.
  destruct cur as [x |]; simpl; [destruct (session_user x); simpl |];
    (split; [reflexivity |]); (left; reflexivity) || (right; reflexivity).
Qed.

Lemma afterFetch_quiet who m q e :
  let e' := fst (match who with
                 | ByCheckSession => checkSession_afterFetch
                 | ByListener => authListener_afterFetch
                 end m q e) in
  toasts e' = toasts e /\
  (isPremium (state e') = isPremium (state e) \/
   isPremium (state e') = grantsPremium (PremiumFetchSettled who "" q)).
Proof.
  destruct who, q as [resp | x], m; simpl; split;
    reflexivity || (left; reflexivity) || (right; reflexivity).
Qed.

Lemma op_begin_quiet i e :
  toasts (fst (op_begin (invoked i) e)) = toasts e.
Proof. destruct i; reflexivity. Qed.

Lemma op_resume_one_toast i r e :
  length (toasts (fst (op_resume (invoked i) r e))) = S (length (toasts e)).
Proof.
  destruct i, r as [[[x |]] | x]; simpl; rewrite length_app; simpl; lia.
Qed.

Lemma isEmpty_snoc {A} (l : list A) (a : A) : isEmpty (l ++ [a]) = false.
Proof. destruct l; reflexivity. Qed.

Lemma take_first_In who uid (l : list (Awaiter * string)) :
  In (who, uid) l ->
  exists rest,
    take_first (fun p => awaiter_eqb (fst p) who && String.eqb (snd p) uid) l
    = Some rest.
Proof.
  induction l as [| [a s] l IH]; simpl; [contradiction |].
  intros [Heq | Hin].
  - injection Heq as -> ->.
    rewrite String.eqb_refl. destruct who; simpl; eexists; reflexivity.
  - destruct (awaiter_eqb a who && String.eqb s uid).
    + eexists; reflexivity.
    + destruct (IH Hin) as [rest ->]. eexists; reflexivity.
Qed.

(** Inversion of a successful [step]: decide every guard, then name the
    world it produced. *)
Ltac step_inv H :=
  simpl in H;
  repeat match type of H with
    | (if ?c then _ else _) = Some _ =>
        destruct c eqn:?; [| discriminate H]
    | match take_first ?p ?l with _ => _ end = Some _ =>
        destruct (take_first p l) eqn:?; [| discriminate H]
    | (let (_, _) := ?c in _) = Some _ => destruct c eqn:?
    end;
  injection H as <-.

(** ** Results on runs of the mounted component *)

Lemma step_busy_or_idle w ev w' :
  step w ev = Some w' ->
  mounted w' = true -> isLoading (exposed w') = true -> quiescent w' = false.
Proof.
  unfold quiescent, exposed.
  destruct ev as [r | event cur | who uid q | | | i | i r];
    intros Hstep; step_inv Hstep; simpl; intros Hm Hl.
  - rewrite Hm in *.
    pose proof (checkSession_resume_live r (env w)) as H.
    match goal with E : checkSession_resume _ _ _ = _ |- _ => rewrite E in H end.
    simpl in H. destruct H as [[uid ->] | [-> H]]; simpl.
    + rewrite isEmpty_snoc. reflexivity.
    + congruence.
  - rewrite Hm in *.
    pose proof (authListener_live event cur (env w)) as H.
    match goal with E : authListener _ _ _ _ = _ |- _ => rewrite E in H end.
    simpl in H. destruct H as [[uid ->] | [-> H]]; simpl.
    + rewrite isEmpty_snoc, andb_false_r. reflexivity.
    + congruence.
  - rewrite Hm in Hl. rewrite afterFetch_live in Hl. discriminate.
  - discriminate.
  - discriminate.
  - rewrite isEmpty_snoc. apply andb_false_r.
  - rewrite op_resume_clears_loading in Hl. discriminate.
Qed.

(** X6. No stuck spinner: in every state the live component can reach, if
    nothing is in flight (no entitlement fetch, no operation) and the initial
    query has settled or the timer has fired, then [isLoading] is false. *)
Theorem quiescent_not_loading (evs : list Event) (w : World) :
  run mountedWorld evs = Some w ->
  mounted w = true -> quiescent w = true ->
  isLoading (exposed w) = false.
Proof.
  intros Hrun Hm Hq.
  assert (forall evs w0 w1,
             run w0 evs = Some w1 ->
             (mounted w0 = true -> isLoading (exposed w0) = true ->
              quiescent w0 = false) ->
             mounted w1 = true -> isLoading (exposed w1) = true ->
             quiescent w1 = false) as Hinv.
  { clear. induction evs as [| ev rest IH]; simpl; intros w0 w1 Hrun H0.
    - injection Hrun as <-. exact H0.
    - destruct (step w0 ev) as [w' |] eqn:Hstep; [| discriminate].
      apply (IH _ _ Hrun). eapply step_busy_or_idle; eassumption. }
  destruct (isLoading (exposed w)) eqn:Hl; [| reflexivity].
  rewrite (Hinv evs mountedWorld w Hrun) in Hq; try assumption.
  - discriminate.
  - reflexivity.
Qed.

Lemma quiescent_not_loading_witness :
  isLoading
    {| user := Some alice; session := Some aliceSession;
       isLoading := false; isPremium := true |} = false.
Proof.
  exact (quiescent_not_loading
           [ SessionQuerySettled (Resolved (Some aliceSession));
             PremiumFetchSettled ByCheckSession "u-1"
               (Resolved {| data := Some {| is_premium := Some true |} |}) ]
           {| env := {| state := {| user := Some alice; session := Some aliceSession;
                                    isLoading := false; isPremium := true |};
                        toasts := []; console := [] |};
              mounted := true;
              timerArmed := true;
              sessionQueryPending := false;
              fetchesPending := [];
              callsPending := [] |}
           eq_refl eq_refl eq_refl).
Defined.

Lemma step_torn_down w ev w' :
  mounted w = false -> timerArmed w = false ->
  step w ev = Some w' -> operationEvent ev = false ->
  exposed w' = exposed w /\ mounted w' = false /\ timerArmed w' = false.
Proof.
  unfold exposed. intros Hm Ht.
  destruct ev as [r | event cur | who uid q | | | i | i r];
    intros Hstep Hev; try discriminate Hev;
    step_inv Hstep; simpl; try congruence.
  - rewrite Hm in *.
    pose proof (checkSession_resume_unmounted r (env w)) as [H _].
    match goal with E : checkSession_resume _ _ _ = _ |- _ => rewrite E in H end.
    auto.
  - rewrite Hm in *.
    pose proof (authListener_unmounted event cur (env w)) as [H _].
    match goal with E : authListener _ _ _ _ = _ |- _ => rewrite E in H end.
    auto.
  - rewrite Hm. rewrite afterFetch_unmounted. auto.
Qed.

(** X7. Teardown freezes the state for everything the effects started: once
    the component is unmounted, late query results, change events and
    entitlement results write nothing and the timer can no longer fire.  The
    operations take no part in this: a call of [signIn], [signUp] or
    [signOut], or the completion of one, still writes, so the statement is
    about runs without operation events. *)
Theorem teardown_freezes_state (w0 w w' : World) (evs : list Event) :
  step w0 Unmounted = Some w ->
  run w evs = Some w' ->
  forallb (fun ev => negb (operationEvent ev)) evs = true ->
  exposed w' = exposed w /\
  step w' TimerFired = None.
Proof.
  intros Hun.
  assert (mounted w = false /\ timerArmed w = false) as [Hm Ht].
  { step_inv Hun. split; reflexivity. }
  clear Hun w0. revert w Hm Ht.
  induction evs as [| ev rest IH]; simpl; intros w Hm Ht Hrun Hall.
  - injection Hrun as <-. simpl. rewrite Ht. split; reflexivity.
  - destruct (step w ev) as [w1 |] eqn:Hstep; [| discriminate].
    apply andb_true_iff in Hall as [Hev Hall].
    apply negb_true_iff in Hev.
    destruct (step_torn_down w ev w1 Hm Ht Hstep Hev) as (He & Hm1 & Ht1).
    rewrite <- He. apply IH; assumption.
Qed.

Lemma teardown_freezes_state_witness :
  exposed
    {| env := {| state := initialState; toasts := [];
                 console := ["Auth state changed: SIGNED_IN u-1"] |};
       mounted := false; timerArmed := false; sessionQueryPending := false;
       fetchesPending := []; callsPending := [] |}
  = initialState.
Proof.
  exact (proj1
           (teardown_freezes_state mountedWorld
              {| env := initialEnv; mounted := false; timerArmed := false;
                 sessionQueryPending := true; fetchesPending := [];
                 callsPending := [] |}
              _
              [ AuthStateChange "SIGNED_IN" (Some aliceSession);
                SessionQuerySettled (Resolved (Some aliceSession)) ]
              eq_refl eq_refl eq_refl)).
Defined.

Lemma step_premium_source w ev w' :
  step w ev = Some w' ->
  isPremium (exposed w') = true ->
  isPremium (exposed w) = true \/ grantsPremium ev = true.
Proof.
  unfold exposed.
  destruct ev as [r | event cur | who uid q | | | i | i r];
    intros Hstep; step_inv Hstep; simpl; intros Hp; auto.
  - pose proof (checkSession_resume_quiet (mounted w) r (env w)) as [_ H].
    match goal with E : checkSession_resume _ _ _ = _ |- _ => rewrite E in H end.
    simpl in H. left. congruence.
  - pose proof (authListener_quiet (mounted w) event cur (env w)) as [_ H].
    match goal with E : authListener _ _ _ _ = _ |- _ => rewrite E in H end.
    simpl in H. left. destruct H; congruence.
  - pose proof (afterFetch_quiet who (mounted w) q (env w)) as [_ H].
    simpl in H.
    destruct who; (destruct H as [H | H]; [left | right]; congruence).
  - left. destruct (op_begin_sameIdentity i (env w)) as (_ & _ & H). congruence.
  - left. destruct (op_resume_sameIdentity i r (env w)) as (_ & _ & H). congruence.
Qed.

(** X8. [isPremium] is never true of its own: in every reachable state where
    it is true, some entitlement fetch has earlier resolved with a row whose
    flag is true.  No query outcome, change event, timer firing or operation
    sets it. *)
Theorem premium_needs_store_grant (evs : list Event) (w : World) :
  run mountedWorld evs = Some w ->
  isPremium (exposed w) = true ->
  existsb grantsPremium evs = true.
Proof.
  assert (forall evs w0 w1,
             run w0 evs = Some w1 -> isPremium (exposed w1) = true ->
             isPremium (exposed w0) = true \/ existsb grantsPremium evs = true)
    as Hgen.
  { clear. induction evs as [| ev rest IH]; simpl; intros w0 w1 Hrun Hp.
    - injection Hrun as <-. left. exact Hp.
    - destruct (step w0 ev) as [w' |] eqn:Hstep; [| discriminate].
      destruct (IH _ _ Hrun Hp) as [H | H].
      + destruct (step_premium_source _ _ _ Hstep H) as [H' | H'].
        * left. exact H'.
        * right. rewrite H'. reflexivity.
      + right. rewrite H. apply orb_true_r. }
  intros Hrun Hp.
  destruct (Hgen evs mountedWorld w Hrun Hp) as [H | H]; [discriminate | exact H].
Qed.

Lemma premium_needs_store_grant_witness :
  existsb grantsPremium
    [ SessionQuerySettled (Resolved (Some aliceSession));
      PremiumFetchSettled ByCheckSession "u-1"
        (Resolved {| data := Some {| is_premium := Some true |} |}) ] = true.
Proof.
  exact (premium_needs_store_grant
           [ SessionQuerySettled (Resolved (Some aliceSession));
             PremiumFetchSettled ByCheckSession "u-1"
               (Resolved {| data := Some {| is_premium := Some true |} |}) ]
           {| env := {| state := {| user := Some alice; session := Some aliceSession;
                                    isLoading := false; isPremium := true |};
                        toasts := []; console := [] |};
              mounted := true;
              timerArmed := true;
              sessionQueryPending := false;
              fetchesPending := [];
              callsPending := [] |}
           eq_refl eq_refl).
Defined.

Lemma step_toasts w ev w' :
  step w ev = Some w' ->
  length (toasts (env w')) =
  length (toasts (env w)) + (if settlesOperation ev then 1 else 0).
Proof.
  destruct ev as [r | event cur | who uid q | | | i | i r];
    intros Hstep; step_inv Hstep; simpl; rewrite ?Nat.add_0_r.
  - pose proof (checkSession_resume_quiet (mounted w) r (env w)) as [H _].
    match goal with E : checkSession_resume _ _ _ = _ |- _ => rewrite E in H end.
    simpl in H. congruence.
  - pose proof (authListener_quiet (mounted w) event cur (env w)) as [H _].
    match goal with E : authListener _ _ _ _ = _ |- _ => rewrite E in H end.
    simpl in H. congruence.
  - pose proof (afterFetch_quiet who (mounted w) q (env w)) as [H _].
    simpl in H. destruct who; congruence.
  - reflexivity.
  - reflexivity.
  - rewrite op_begin_quiet. reflexivity.
  - rewrite op_resume_one_toast. lia.
Qed.

(** X9. Notifications come from completed operations and from nothing else:
    along every run, the number of notifications emitted equals the number of
    operations that have completed, whatever their outcome.  The initial
    query, change events, entitlement fetches, the timer and teardown are
    silent. *)
Theorem one_toast_per_completed_operation (evs : list Event) (w : World) :
  run mountedWorld evs = Some w ->
  length (toasts (env w)) = length (filter settlesOperation evs).
Proof.
  assert (forall evs w0 w1,
             run w0 evs = Some w1 ->
             length (toasts (env w1)) =
             length (toasts (env w0)) + length (filter settlesOperation evs))
    as Hgen.
  { clear. induction evs as [| ev rest IH]; simpl; intros w0 w1 Hrun.
    - injection Hrun as <-. lia.
    - destruct (step w0 ev) as [w' |] eqn:Hstep; [| discriminate].
      rewrite (IH _ _ Hrun), (step_toasts _ _ _ Hstep).
      destruct (settlesOperation ev); simpl; lia. }
  intro Hrun. rewrite (Hgen _ _ _ Hrun). reflexivity.
Qed.

Lemma one_toast_per_completed_operation_witness :
  length
    [ {| title := "Sign in failed"; description := "Invalid login credentials";
         variant := VariantDestructive |} ] = 1.
Proof.
  exact (one_toast_per_completed_operation
           [ OperationCalled (CallSignIn "alice@example.org" "wrong");
             AuthStateChange "INITIAL_SESSION" None;
             OperationSettled (CallSignIn "alice@example.org" "wrong")
               (Resolved {| error := Some {| message := "Invalid login credentials" |} |}) ]
           {| env := {| state := {| user := None; session := None;
                                    isLoading := false; isPremium := false |};
                        toasts := [ {| title := "Sign in failed";
                                       description := "Invalid login credentials";
                                       variant := VariantDestructive |} ];
                        console := ["Auth state changed: INITIAL_SESSION undefined"] |};
              mounted := true;
              timerArmed := true;
              sessionQueryPending := true;
              fetchesPending := [];
              callsPending := [] |}
           eq_refl).
Defined.

(** X10. The timer cancels nothing.  If the initial query is still pending
    when the timer fires, and it then resolves with a session that carries a
    user, the login is installed over the state the timer forced; [isLoading]
    stays false and the entitlement fetch for that user is started. *)
Theorem late_query_overrides_timer (w : World) (x : Session) (u : User) :
  mounted w = true -> timerArmed w = true -> sessionQueryPending w = true ->
  session_user x = Some u ->
  exists w',
    run w [TimerFired; SessionQuerySettled (Resolved (Some x))] = Some w' /\
    exposed w' = {| user := Some u; session := Some x;
                    isLoading := false; isPremium := isPremium (exposed w) |} /\
    fetchesPending w' = (fetchesPending w ++ [(ByCheckSession, user_id u)])%list.
Proof.
  intros Hm Ht Hq Hu. simpl. rewrite Ht. simpl. rewrite Hq, Hm.
  unfold checkSession_resume, checkSession_try, try_catch, bind, await, ret,
    sessionUser; simpl.
  rewrite Hu; simpl.
  eexists. split; [reflexivity |]. split; reflexivity.
Qed.

Lemma late_query_overrides_timer_witness :
  exists w',
    run mountedWorld
      [TimerFired; SessionQuerySettled (Resolved (Some aliceSession))] = Some w' /\
    exposed w' = {| user := Some alice; session := Some aliceSession;
                    isLoading := false; isPremium := false |} /\
    fetchesPending w' = [(ByCheckSession, "u-1")].
Proof.
  exact (late_query_overrides_timer mountedWorld aliceSession alice
           eq_refl eq_refl eq_refl eq_refl).
Defined.

(** X11. An entitlement answer is applied to whoever is, or is not, logged
    in when it arrives.  If a change event with no session is delivered while
    a fetch is pending and the fetch then resolves, the state has no user and
    no session and [isPremium] is the flag of the stale answer. *)
Theorem stale_entitlement_applies
    (w : World) (who : Awaiter) (uid event : string) (resp : QueryResponse) :
  mounted w = true ->
  In (who, uid) (fetchesPending w) ->
  exists w',
    run w [ AuthStateChange event None;
            PremiumFetchSettled who uid (Resolved resp) ] = Some w' /\
    exposed w' = {| user := None; session := None;
                    isLoading := false; isPremium := premiumFlag (data resp) |}.
Proof.
  intros Hm Hin. simpl. rewrite Hm. simpl.
  destruct (take_first_In who uid _ Hin) as [rest ->].
  eexists. split; [reflexivity |].
  destruct who; reflexivity.
Qed.

Lemma stale_entitlement_applies_witness :
  exists w',
    run mountedWorld
      [ AuthStateChange "SIGNED_IN" (Some aliceSession);
        AuthStateChange "SIGNED_OUT" None;
        PremiumFetchSettled ByListener "u-1"
          (Resolved {| data := Some {| is_premium := Some true |} |}) ] = Some w' /\
    exposed w' = {| user := None; session := None;
                    isLoading := false; isPremium := true |}.
Proof.
  exact (stale_entitlement_applies
           {| env := {| state := {| user := Some alice; session := Some aliceSession;
                                    isLoading := true; isPremium := false |};
                        toasts := [];
                        console := ["Auth state changed: SIGNED_IN u-1"] |};
              mounted := true;
              timerArmed := true;
              sessionQueryPending := true;
              fetchesPending := [(ByListener, "u-1")];
              callsPending := [] |}
           ByListener "u-1" "SIGNED_OUT"
           {| data := Some {| is_premium := Some true |} |}
           eq_refl (or_introl eq_refl)).
Defined.

(** X12. [isLoading] has several writers and the last one wins: a change
    event with no session that arrives while an operation is in flight ends
    loading at once, although the operation has not completed. *)
Theorem loading_ends_under_running_operation
    (w : World) (i : Invocation) (event : string) :
  mounted w = true ->
  exists w',
    run w [OperationCalled i; AuthStateChange event None] = Some w' /\
    isLoading (exposed w') = false /\
    callsPending w' = (callsPending w ++ [i])%list.
Proof.
  intro Hm. simpl. rewrite Hm. simpl.
  eexists. split; [reflexivity |]. split; reflexivity.
Qed.

Lemma loading_ends_under_running_operation_witness :
  exists w',
    run mountedWorld
      [OperationCalled CallSignOut; AuthStateChange "INITIAL_SESSION" None] = Some w' /\
    isLoading (exposed w') = false /\
    callsPending w' = [CallSignOut].
Proof.
  exact (loading_ends_under_running_operation mountedWorld CallSignOut
           "INITIAL_SESSION" eq_refl).
Defined.

(** * Properties of the collection page *)

(** X13. What the filter keeps: with "all" selected the list is handed on
    unchanged; with a specific difficulty a game is shown exactly when it is
    in the list and has that difficulty, and the games shown keep the order
    of the list. *)
Theorem filteredGames_keeps (gs : list GameVariant) (d : Difficulty) :
  filteredGames gs DiffAll = gs /\
  (forall g, In g (filteredGames gs d) <->
             In g gs /\ (d = DiffAll \/ game_difficulty g = difficultyText d)) /\
  (forall before after,
      gs = (before ++ after)%list ->
      filteredGames gs d = (filteredGames before d ++ filteredGames after d)%list).
Proof.
  split; [reflexivity |]. split.
  - intro g. destruct d; unfold filteredGames; simpl;
      try (rewrite filter_In, String.eqb_eq; split;
           [ intros [H1 H2]; split; [exact H1 | right; exact H2]
           | intros [H1 [H2 | H2]]; [discriminate H2 | split; assumption] ]).
    split; [intro H; split; [exact H | left; reflexivity] | intros [H _]; exact H].
  - intros before after ->.
    destruct d; unfold filteredGames; simpl; try apply filter_app. reflexivity.
Qed.

(** X14. The three specific filters split the catalogue: when every game is
    easy, medium or hard, the numbers of games shown under the three filters
    add up to the number shown under "all". *)
Theorem specific_filters_partition (gs : list GameVariant) :
  Forall (fun g => In (game_difficulty g) ["easy"; "medium"; "hard"]) gs ->
  length (filteredGames gs DiffEasy) + length (filteredGames gs DiffMedium)
  + length (filteredGames gs DiffHard)
  = length (filteredGames gs DiffAll).
Proof.
  unfold filteredGames; simpl.
  induction 1 as [| g rest Hg _ IH]; simpl; [reflexivity |].
  destruct Hg as [Hg | [Hg | [Hg | []]]]; rewrite <- Hg; simpl; lia.
Qed.

Lemma specific_filters_partition_witness :
  let gs := [ {| game_id := "classic"; game_name := "Classic"; game_difficulty := "easy" |};
              {| game_id := "ultimate"; game_name := "Ultimate"; game_difficulty := "hard" |};
              {| game_id := "misere"; game_name := "Misere"; game_difficulty := "easy" |} ] in
  length (filteredGames gs DiffEasy) + length (filteredGames gs DiffMedium)
  + length (filteredGames gs DiffHard) = 3.
Proof.
  apply (specific_filters_partition
           [ {| game_id := "classic"; game_name := "Classic"; game_difficulty := "easy" |};
             {| game_id := "ultimate"; game_name := "Ultimate"; game_difficulty := "hard" |};
             {| game_id := "misere"; game_name := "Misere"; game_difficulty := "easy" |} ]).
  repeat (apply Forall_cons; [simpl; auto 6 |]). apply Forall_nil.
Defined.

Lemma gameSlotsFrom_nth (gs : list GameVariant) : forall k i,
  nth_error (gameSlotsFrom k gs) i =
  option_map (fun g => {| slot_key := game_id g;
                          slot_delay := 300 + (k + i) * 100;
                          slot_game := g |})
             (nth_error gs i).
Proof.
  induction gs as [| g rest IH]; intros k [| i]; simpl; try reflexivity.
  - rewrite Nat.add_0_r. reflexivity.
  - rewrite IH. replace (S k + i) with (k + S i) by lia. reflexivity.
Qed.

Lemma gameSlotsFrom_games (gs : list GameVariant) : forall k,
  map slot_game (gameSlotsFrom k gs) = gs.
Proof. induction gs as [| g rest IH]; intro k; simpl; [| rewrite IH]; reflexivity. Qed.

(** X15. The cards of the page: one per game that passes the filter, in
    order; the card at position [i] is keyed by the game's id and delayed by
    [300 + 100 i] milliseconds; the "No games found" notice is rendered
    exactly when no game of the list passes the filter. *)
Theorem Collection_cards (gs : list GameVariant) (d : Difficulty) :
  let v := Collection gs d in
  map slot_game (view_slots v) = filteredGames gs d /\
  (forall i,
      nth_error (view_slots v) i =
      option_map (fun g => {| slot_key := game_id g;
                              slot_delay := 300 + i * 100;
                              slot_game := g |})
                 (nth_error (filteredGames gs d) i)) /\
  view_notice v = isEmpty (view_slots v) /\
  view_notice v = negb (existsb (passesFilter d) gs).
Proof.
  simpl. split; [apply gameSlotsFrom_games |].
  split; [intro i; apply gameSlotsFrom_nth |].
  split.
  - destruct (filteredGames gs d); reflexivity.
  - unfold filteredGames, passesFilter.
    destruct (difficulty_eqb d DiffAll); simpl.
    + destruct gs; reflexivity.
    + induction gs as [| g rest IH]; simpl; [reflexivity |].
      destruct (String.eqb (game_difficulty g) (difficultyText d)); simpl;
        [reflexivity | exact IH].
Qed.

(** X16. The filter buttons: whatever is selected, the four buttons are
    rendered in the order all, easy, medium, hard, exactly one of them is
    highlighted, namely the selected one, and clicking a button makes it the
    highlighted one.  A colour class is added only to the highlighted button
    of a specific difficulty. *)
Theorem one_filter_button_highlighted (d : Difficulty) :
  map fb_onClick (filterButtons d) = [DiffAll; DiffEasy; DiffMedium; DiffHard] /\
  filter isHighlighted (filterButtons d) = [filterButton d d] /\
  (forall diff,
      let d' := clickFilter (filterButton d diff) d in
      d' = diff /\ isHighlighted (filterButton d' diff) = true) /\
  (forall diff,
      length (fb_classes (filterButton d diff)) =
      if difficulty_eqb d diff && negb (difficulty_eqb diff DiffAll)
      then 2 else 1).
Proof.
  split; [reflexivity |].
  split; [destruct d; reflexivity |].
  split; intro diff; [split; [| destruct diff] | destruct d, diff]; reflexivity.
Qed.

(** * Properties of the donation page *)

Lemma find_card (position : nat) (o : DonationOption) :
  nth_error DONATION_OPTIONS position = Some o ->
  find (amountSelected (Some (amount o))) DONATION_OPTIONS = Some o /\
  amountTruthy (Some (amount o)) = true /\
  length (filter (amountSelected (Some (amount o))) DONATION_OPTIONS) = 1.
Proof.
  do 4 (destruct position as [| position];
        [simpl; intro H; injection H as <-; repeat split; reflexivity |]).
  destruct position; discriminate.
Qed.

Lemma donateStep_tracks page last ev page' :
  tracksCard page last -> donateStep page ev = Some page' ->
  tracksCard page'
    (match ev with CardClicked position => Some position | DonateClicked => last end) /\
  windows page' =
    (windows page
     ++ map (fun a => (a, "_blank"))
          (match ev, lastCard last with
           | DonateClicked, Some o => [url o]
           | _, _ => []
           end))%list.
Proof.
  unfold tracksCard, donateStep. intros Ht. destruct ev as [position |].
  - destruct (nth_error DONATION_OPTIONS position) as [o |] eqn:Ho; [| discriminate].
    intro H; injection H as <-.
    unfold lastCard. rewrite Ho.
    cbn [handleAmountSelect selectedAmount windows option_map map].
    rewrite app_nil_r. split; reflexivity.
  - unfold donateButton_disabled, donateButton_onClick. rewrite Ht.
    destruct (lastCard last) as [o |] eqn:Hlast; cbn [option_map];
      [| simpl; discriminate].
    assert (exists position, nth_error DONATION_OPTIONS position = Some o)
      as [position Ho].
    { destruct last as [position |]; [exists position; exact Hlast | discriminate]. }
    destruct (find_card position o Ho) as (Hf & Hy & _).
    rewrite Hy, Hf. cbn [negb].
    intro H; injection H as <-.
    cbn [handleDonateClick selectedAmount windows map].
    split; [exact Ht | reflexivity].
Qed.

Lemma donateRun_tracks (evs : list DonateEvent) : forall page last page',
  tracksCard page last -> donateRun page evs = Some page' ->
  (exists last', tracksCard page' last') /\
  windows page' =
    (windows page ++ map (fun a => (a, "_blank")) (linksExpected last evs))%list.
Proof.
  induction evs as [| ev rest IH]; simpl; intros page last page' Ht Hrun.
  - injection Hrun as <-. rewrite app_nil_r. split; [exists last; exact Ht | reflexivity].
  - destruct (donateStep page ev) as [page1 |] eqn:Hstep; [| discriminate].
    destruct (donateStep_tracks _ _ _ _ Ht Hstep) as [Ht1 Hw1].
    destruct (IH _ _ _ Ht1 Hrun) as [Hex Hw].
    split; [exact Hex |].
    rewrite Hw, Hw1, <- app_assoc. f_equal.
    destruct ev as [position |]; simpl; [reflexivity |].
    destruct (lastCard last); reflexivity.
Qed.

(** X17. Whatever the visitor clicks, every click on Donate opens exactly
    one new tab, and it is the payment link of the card clicked last before
    it; nothing else opens a window. *)
Theorem donate_opens_selected_link (evs : list DonateEvent) (page : DonatePage) :
  donateRun initialDonatePage evs = Some page ->
  windows page = map (fun a => (a, "_blank")) (linksExpected None evs).
Proof.
  intro Hrun.
  destruct (donateRun_tracks evs initialDonatePage None page eq_refl Hrun) as [_ H].
  exact H.
Qed.

Lemma donate_opens_selected_link_witness :
  [ ("https://buy.stripe.com/eVa9AA6qB2Ljgr6eUV", "_blank");
    ("https://buy.stripe.com/bIY6oobKV3Pn3Ek002", "_blank") ]
  = map (fun a => (a, "_blank"))
      (linksExpected None
         [CardClicked 0; CardClicked 1; DonateClicked; CardClicked 3; DonateClicked]).
Proof.
  exact (donate_opens_selected_link
           [CardClicked 0; CardClicked 1; DonateClicked; CardClicked 3; DonateClicked]
           {| selectedAmount := Some 20;
              windows := [ ("https://buy.stripe.com/eVa9AA6qB2Ljgr6eUV", "_blank");
                           ("https://buy.stripe.com/bIY6oobKV3Pn3Ek002", "_blank") ];
              pageConsole := ["Donating 10 dollars"; "Donating 20 dollars"] |}
           eq_refl).
Defined.

(** X18. In every state the page can reach, the Donate button is disabled
    exactly when no card has been clicked; it then reads "Select an amount"
    and no card is marked.  Once a card has been clicked the button is
    enabled, reads "Donate $" followed by the amount, exactly one card is
    marked, and a click finds the option to open. *)
Theorem donate_button_follows_selection (evs : list DonateEvent) (page : DonatePage) :
  donateRun initialDonatePage evs = Some page ->
  match selectedAmount page with
  | None =>
      donateButton_disabled page = true /\
      donateButton_label page = "Select an amount" /\
      filter (amountSelected (selectedAmount page)) DONATION_OPTIONS = []
  | Some a =>
      donateButton_disabled page = false /\
      donateButton_label page = ("Donate $" ++ numberText a)%string /\
      length (filter (amountSelected (selectedAmount page)) DONATION_OPTIONS) = 1 /\
      exists o, In o DONATION_OPTIONS /\ amount o = a /\
                find (amountSelected (selectedAmount page)) DONATION_OPTIONS = Some o
  end.
Proof.
  intro Hrun.
  destruct (donateRun_tracks evs initialDonatePage None page eq_refl Hrun)
    as [[last Ht] _].
  unfold tracksCard in Ht.
  unfold donateButton_disabled, donateButton_label. rewrite Ht.
  destruct (lastCard last) as [o |] eqn:Hlast; cbn [option_map];
    [| repeat split; reflexivity].
  assert (exists position, nth_error DONATION_OPTIONS position = Some o)
    as [position Ho].
  { destruct last as [position |]; [exists position; exact Hlast | discriminate]. }
  destruct (find_card position o Ho) as (Hf & Hy & Hl).
  rewrite Hy.
  split; [reflexivity |]. split; [reflexivity |]. split; [exact Hl |].
  exists o. split; [eapply nth_error_In; exact Ho |]. split; [reflexivity | exact Hf].
Qed.

Lemma donate_button_follows_selection_witness :
  donateButton_disabled
    {| selectedAmount := Some 15; windows := []; pageConsole := [] |} = false /\
  donateButton_label
    {| selectedAmount := Some 15; windows := []; pageConsole := [] |} = "Donate $15".
Proof.
  destruct (donate_button_follows_selection [CardClicked 2]
              {| selectedAmount := Some 15; windows := []; pageConsole := [] |}
              eq_refl) as (Hd & Hl & _).
  split; [exact Hd | exact Hl].
Defined.
